(** * dot-dotty: dot-path access to nested data through a Proxy

    A verification development for [src/index.mjs].  The module exports
    [DotDotty(target, options)], a [Proxy] whose [get] and [set] traps read a
    property name as a path of segments separated by dots.

    The file has three layers:
    - the JavaScript built-ins the traps call ([split], [join], [repeat],
      [isNaN], [Number], property reads and writes, [typeof]);
    - the two traps, transcribed statement by statement;
    - the properties of the traps.

    Modelling scope.
    - The properties are about the two trap functions, their outcome (the
      value returned or the error thrown) and their effect on the heap; what
      a [Proxy] does with the value its [set] trap returns is not modelled.
    - Strings are sequences of code units below 256.
    - Data values are [undefined], [null], booleans, integer numbers,
      strings and references to containers (plain objects and arrays) kept
      in a heap, so that in-place mutation and sharing are visible.
    - A container holds the entries that were stored in it and nothing
      else: the properties that JavaScript itself attaches to objects,
      arrays and strings ([length], the characters of a string, [__proto__]
      and the members inherited from the built-in prototypes) are outside
      the model.
    - The module is an ES module, hence strict-mode code: a property write
      that cannot be done throws.
    - [Number] rounds to a double.  Where the result is an integer of
      magnitude at most [2^53 - 1] its text is computed here; elsewhere the
      text depends on IEEE-754 rounding and is a parameter,
      [inexact_to_string], of which every property is independent. *)

From Stdlib Require Import Ascii String ZArith.
From stdpp Require Import base strings pretty gmap.

Local Open Scope string_scope.
Local Open Scope Z_scope.

(** ** Strings: [split], [join], [repeat] *)

Module Str.

Definition dot : ascii := "."%char.
Definition quote : ascii := "034"%char.
Definition newline : ascii := "010"%char.

(** [s.split('.')]: the segments between the dots; never empty. *)
Fixpoint split (s : string) : list string :=
  match s with
  | EmptyString => [EmptyString]
  | String a s' =>
      if Ascii.eqb a dot then EmptyString :: split s'
      else match split s' with
           | seg :: segs => String a seg :: segs
           | [] => [String a EmptyString]
           end
  end.

(** [l.join('.')]. *)
Fixpoint join (l : list string) : string :=
  match l with
  | [] => EmptyString
  | [x] => x
  | x :: l' => x +:+ String dot (join l')
  end.

(** [" ".repeat(n)]. *)
Fixpoint spaces (n : nat) : string :=
  match n with
  | O => EmptyString
  | S n' => String " "%char (spaces n')
  end.

(** [l.slice(0, i)]. *)
Definition slice0 (l : list string) (i : nat) : list string := take i l.

End Str.

(** ** Numbers: [isNaN] and [Number] on strings *)

Module Num.

(** The mathematical value of a string numeric literal, before it is
    rounded to a double. *)
Inductive number :=
  | NaN
  | Infinite (negative : bool)
  | Finite (negative : bool) (mantissa : N) (exponent : Z).

(** White space and line terminators below code 256: TAB, LF, VT, FF, CR,
    SP and NBSP. *)
Definition is_white_space (a : ascii) : bool :=
  let c := N_of_ascii a in
  ((9 <=? c) && (c <=? 13) || (c =? 32) || (c =? 160))%N.

Fixpoint trim_start (s : string) : string :=
  match s with
  | String a s' => if is_white_space a then trim_start s' else s
  | EmptyString => EmptyString
  end.

Fixpoint trim_end (s : string) : string :=
  match s with
  | String a s' =>
      match trim_end s' with
      | EmptyString => if is_white_space a then EmptyString
                       else String a EmptyString
      | t => String a t
      end
  | EmptyString => EmptyString
  end.

Definition trim (s : string) : string := trim_end (trim_start s).

Definition digit_value (base : N) (a : ascii) : option N :=
  let c := N_of_ascii a in
  let d := (if (48 <=? c) && (c <=? 57) then Some (c - 48)
            else if (97 <=? c) && (c <=? 102) then Some (c - 87)
            else if (65 <=? c) && (c <=? 70) then Some (c - 55)
            else None)%N in
  match d with
  | Some d => if (d <? base)%N then Some d else None
  | None => None
  end.

(** The value of a string made of digits only ([None] if another
    character occurs). *)
Fixpoint digits_value (base acc : N) (s : string) : option N :=
  match s with
  | EmptyString => Some acc
  | String a s' =>
      match digit_value base a with
      | Some d => digits_value base (acc * base + d)%N s'
      | None => None
      end
  end.

(** One or more digits. *)
Definition integer_literal (base : N) (s : string) : option N :=
  match s with
  | EmptyString => None
  | _ => digits_value base 0 s
  end.

(** The longest prefix of decimal digits, and what follows it. *)
Fixpoint span_digits (s : string) : string * string :=
  match s with
  | String a s' =>
      match digit_value 10 a with
      | Some _ => let '(ds, rest) := span_digits s' in (String a ds, rest)
      | None => (EmptyString, s)
      end
  | EmptyString => (EmptyString, EmptyString)
  end.

(** An optional sign. *)
Definition sign_prefix (s : string) : bool * string :=
  match s with
  | String a t =>
      if Ascii.eqb a "-" then (true, t)
      else if Ascii.eqb a "+" then (false, t)
      else (false, s)
  | EmptyString => (false, s)
  end.

(** ExponentPart, optional: [e] or [E], an optional sign, digits. *)
Definition exponent_part (s : string) : option Z :=
  match s with
  | EmptyString => Some 0
  | String a s' =>
      if Ascii.eqb a "e" || Ascii.eqb a "E" then
        let '(negative, ds) := sign_prefix s' in
        match integer_literal 10 ds with
        | Some n => Some (if negative then - Z.of_N n else Z.of_N n)
        | None => None
        end
      else None
  end.

(** StrUnsignedDecimalLiteral: [Infinity], or digits with an optional
    fraction and an optional exponent. *)
Definition unsigned_decimal (negative : bool) (s : string) : number :=
  if String.eqb s "Infinity" then Infinite negative
  else
    let '(int, rest) := span_digits s in
    let '(frac, rest) :=
      match rest with
      | String a rest' =>
          if Ascii.eqb a "." then span_digits rest' else (EmptyString, rest)
      | EmptyString => (EmptyString, rest)
      end in
    match int +:+ frac with
    | EmptyString => NaN
    | ds =>
        match digits_value 10 0 ds, exponent_part rest with
        | Some m, Some e =>
            Finite negative m (e - Z.of_nat (String.length frac))
        | _, _ => NaN
        end
    end.

(** The prefix [0x], [0o] or [0b] of an integer in another radix, in either
    case. *)
Definition radix_prefix (s : string) : option (N * string) :=
  match s with
  | String z (String x ds) =>
      if Ascii.eqb z "0" then
        if Ascii.eqb x "x" || Ascii.eqb x "X" then Some (16%N, ds)
        else if Ascii.eqb x "o" || Ascii.eqb x "O" then Some (8%N, ds)
        else if Ascii.eqb x "b" || Ascii.eqb x "B" then Some (2%N, ds)
        else None
      else None
  | _ => None
  end.

(** StringToNumber: white space is trimmed, the empty string is 0, then an
    unsigned binary, octal or hexadecimal integer, or a signed decimal
    literal. *)
Definition of_string (s : string) : number :=
  match trim s with
  | EmptyString => Finite false 0 0
  | t =>
      match radix_prefix t with
      | Some (b, ds) =>
          match integer_literal b ds with
          | Some n => Finite false n 0
          | None => NaN
          end
      | None =>
          let '(negative, u) := sign_prefix t in unsigned_decimal negative u
      end
  end.

(** [isNaN(s)] for a string [s]. *)
Definition isNaN (s : string) : bool :=
  match of_string s with
  | NaN => true
  | _ => false
  end.

(** The integer a literal denotes, when it is one and lies in the range
    [-(2^53 - 1) .. 2^53 - 1], where doubles are exact. *)
Definition safe_integer (negative : bool) (m : N) (e : Z) : option Z :=
  let m := Z.of_N m in
  let v := if 0 <=? e then Some (m * 10 ^ e)
           else if m mod 10 ^ (- e) =? 0 then Some (m / 10 ^ (- e))
           else None in
  match v with
  | Some v =>
      if v <=? 2 ^ 53 - 1 then Some (if negative then - v else v) else None
  | None => None
  end.

Section Key.

(** The decimal text [String(x)] of the double [x] nearest to
    [± m × 10^e], needed only outside the safe integers, where it depends
    on IEEE-754 rounding; it is left to the environment. *)
Variable inexact_to_string : bool → N → Z → string.

(** [String(Number(s))]: the property key that the number [Number(s)]
    names. *)
Definition to_key (s : string) : string :=
  match of_string s with
  | NaN => "NaN"
  | Infinite negative => if negative then "-Infinity" else "Infinity"
  | Finite negative m e =>
      match safe_integer negative m e with
      | Some z => pretty z
      | None => inexact_to_string negative m e
      end
  end.

End Key.

End Num.

(** ** Values and the heap *)

Definition loc := positive.

Inductive value :=
  | VUndefined
  | VNull
  | VBool (b : bool)
  | VNumber (z : Z)
  | VString (s : string)
  | VRef (l : loc).

(** [{}] and [[]]. *)
Inductive kind := Mapping | Sequence.

Record container := Container {
  c_kind : kind;
  c_entries : gmap string value
}.

Abbreviation heap := (gmap loc container).

(** What a call can do other than fall through to its next statement. *)
Inductive exn :=
  | Error (message : string)   (* [throw new Error(message)] *)
  | TypeError.                 (* thrown by the language itself *)

Inductive outcome :=
  | Return (v : value)
  | Throw (e : exn).

(** [v === undefined]. *)
Definition is_undefined (v : value) : bool :=
  match v with
  | VUndefined => true
  | _ => false
  end.

(** [typeof v]. *)
Definition typeof (v : value) : string :=
  match v with
  | VUndefined => "undefined"
  | VNull => "object"
  | VBool _ => "boolean"
  | VNumber _ => "number"
  | VString _ => "string"
  | VRef _ => "object"
  end.

Definition lookup_entry (h : heap) (l : loc) (k : string) : option value :=
  match h !! l with
  | Some c => c_entries c !! k
  | None => None
  end.

(** [o[k]] as an expression.  Reading from [undefined] or [null] throws; a
    primitive value has no entries; so has a reference to no container of
    the heap, which no JavaScript value is. *)
Definition read_prop (h : heap) (o : value) (k : string) : exn + value :=
  match o with
  | VUndefined | VNull => inl TypeError
  | VRef l => inr (default VUndefined (lookup_entry h l k))
  | VBool _ | VNumber _ | VString _ => inr VUndefined
  end.

(** [o[k] = v] in strict mode: it throws unless [o] is a container. *)
Definition write_prop (h : heap) (o : value) (k : string) (v : value)
  : exn + heap :=
  match o with
  | VRef l =>
      match h !! l with
      | Some c =>
          inr (<[l := Container (c_kind c) (<[k := v]> (c_entries c))]> h)
      | None => inl TypeError
      end
  | _ => inl TypeError
  end.

Definition fresh_loc (h : heap) : loc := fresh (dom h).

(** The literals [{}] and [[]]: a new, empty container. *)
Definition alloc_prop (h : heap) (kd : kind) : loc * heap :=
  let l := fresh_loc h in (l, <[l := Container kd ∅]> h).

(** ** A monad for the [set] trap: heap, early [return], [throw] *)

Inductive result (A : Type) :=
  | Ok (a : A)          (* go on with the next statement *)
  | Exit (o : outcome). (* the function has returned or thrown *)
Arguments Ok {A} a.
Arguments Exit {A} o.

Definition M (A : Type) : Type := heap → result A * heap.

#[global] Instance M_ret : MRet M := λ A a h, (Ok a, h).
#[global] Instance M_bind : MBind M := λ A B f m h,
  match m h with
  | (Ok a, h') => f a h'
  | (Exit o, h') => (Exit o, h')
  end.

Definition throw {A} (e : exn) : M A := λ h, (Exit (Throw e), h).
Definition return_ {A} (v : value) : M A := λ h, (Exit (Return v), h).

Definition read (o : value) (k : string) : M value := λ h,
  match read_prop h o k with
  | inr v => (Ok v, h)
  | inl e => (Exit (Throw e), h)
  end.

Definition write (o : value) (k : string) (v : value) : M () := λ h,
  match write_prop h o k v with
  | inr h' => (Ok (), h')
  | inl e => (Exit (Throw e), h)
  end.

Definition alloc (kd : kind) : M value := λ h,
  let '(l, h') := alloc_prop h kd in (Ok (VRef l), h').

(** The outcome of a function whose body is [m]. *)
Definition call (m : M value) (h : heap) : outcome * heap :=
  match m h with
  | (Ok v, h') => (Return v, h')
  | (Exit o, h') => (o, h')
  end.

(** ** The module *)

Record options := Options {
  isImmutable : bool;
  isExpandable : bool;
  throwErrors : bool
}.

(** [{isImmutable=false, isExpandable=true, throwErrors=true}={}]. *)
Definition default_options : options := Options false true true.

Module DotDotty.

Import Str.

(** The template of the first segment, whose three lines are
    [invalid target "${part}"], [${prop}] and [^]. *)
Definition message_first (part prop : string) : string :=
  "invalid target " +:+ String quote part +:+ String quote EmptyString
    +:+ String newline prop +:+ String newline "^".

(** The template of the later segments, whose three lines are
    [invalid target "${part}" in "${parts.slice(0, i).join('.')}"],
    [${prop}] and [${" ".repeat(parts.slice(0, i).join('.').length)}^]. *)
Definition message_later (part : string) (parts : list string) (i : nat)
    (prop : string) : string :=
  "invalid target " +:+ String quote part +:+ String quote " in "
    +:+ String quote (join (slice0 parts i)) +:+ String quote EmptyString
    +:+ String newline prop
    +:+ String newline (spaces (String.length (join (slice0 parts i))))
    +:+ "^".

(** The error both traps build: one message when [i === 0], another
    otherwise. *)
Definition invalid_target (part : string) (parts : list string) (i : nat)
    (prop : string) : exn :=
  Error (if (i =? 0)%nat then message_first part prop
         else message_later part parts i prop).

Section Traps.

Variable inexact_to_string : bool → N → Z → string.
Variable opts : options.

(** *** [get: (obj, prop) => ...] *)

(** The [for] loop, at index [i] with [rest] the segments from [i] on. *)
Fixpoint get_loop (h : heap) (prop : string) (parts : list string)
    (i : nat) (rest : list string) (obj : value) : outcome :=
  match rest with
  | part :: rest' =>
      match read_prop h obj part with          (* obj = obj[part] *)
      | inl e => Throw e
      | inr obj =>
          if is_undefined obj then
            if throwErrors opts
            then Throw (invalid_target part parts i prop)
            else Return VUndefined
          else get_loop h prop parts (S i) rest' obj
      end
  | [] => Return obj
  end.

Definition get (h : heap) (target : loc) (prop : string) : outcome :=
  let parts := split prop in
  get_loop h prop parts 0 parts (VRef target).

(** *** [set: (obj, prop, value) => ...] *)

(** [obj[part] === undefined || typeof obj[part] !== 'object']. *)
Definition undefined_or_not_object (obj : value) (part : string) : M bool :=
  cur ← read obj part;
  if is_undefined cur then mret true
  else (cur ← read obj part;
        mret (negb (String.eqb (typeof cur) "object"))).

(** [if (!isNaN(part)) { part = Number(part) }]: from then on [part] is
    used as a property key and in the message, where a number stands for
    its text. *)
Definition coerce (part : string) : string :=
  if negb (Num.isNaN part) then Num.to_key inexact_to_string part
  else part.

(** The body of the [for] loop at index [i], with [part = parts[i]] and
    [nextPart = parts[i+1]]; it yields the [obj] of the next iteration.
    [nextPart !== undefined] holds, since [i < parts.length - 1]. *)
Definition set_iteration (prop : string) (parts : list string) (i : nat)
    (part nextPart : string) (obj : value) : M value :=
  let part := coerce part in
  (if isExpandable opts then
     if negb (Num.isNaN nextPart) then
       c ← undefined_or_not_object obj part;
       if (c : bool)
       then (a ← alloc Sequence; write obj part a)         (* obj[part] = [] *)
       else mret ()
     else
       c ← undefined_or_not_object obj part;
       if (c : bool)
       then (o ← alloc Mapping; write obj part o)          (* obj[part] = {} *)
       else mret ()
   else mret ());;
  cur ← read obj part;
  if is_undefined cur then
    if throwErrors opts
    then throw (invalid_target part parts i prop)
    else return_ VUndefined
  else read obj part.                              (* obj = obj[part] *)

(** The [for] loop from index [i] on, with [rest] the segments from [i]
    on: it runs while [i < parts.length - 1]. *)
Fixpoint set_loop (prop : string) (parts : list string) (i : nat)
    (rest : list string) (obj : value) : M value :=
  match rest with
  | part :: (nextPart :: _) as rest' =>
      obj ← set_iteration prop parts i part nextPart obj;
      set_loop prop parts (S i) rest' obj
  | _ => mret obj
  end.

(** After the loop: the check of the terminal segment and the
    assignment. *)
Definition set_finish (prop : string) (parts : list string) (v : value)
    (obj : value) : M value :=
  let last := List.last parts "undefined" in   (* parts[parts.length-1] *)
  cur ← read obj last;
  (if is_undefined cur then
     if negb (isExpandable opts) then
       if throwErrors opts
       then throw (invalid_target last parts (length parts - 1) prop)
       else return_ VUndefined
     else mret ()
   else mret ());;
  write obj last v;;
  return_ v.

Definition set_body (target : loc) (prop : string) (v : value) : M value :=
  if isImmutable opts then return_ VUndefined
  else
    let parts := split prop in
    obj ← set_loop prop parts 0 parts (VRef target);
    set_finish prop parts v obj.

Definition set (h : heap) (target : loc) (prop : string) (v : value)
  : outcome * heap :=
  call (set_body target prop v) h.

End Traps.

End DotDotty.

(** ** Notions used to state the properties *)

(** The plain chain of reads [obj[k1][k2]...[kn]] of the language. *)
Fixpoint walk (h : heap) (obj : value) (ks : list string) : exn + value :=
  match ks with
  | [] => inr obj
  | k :: ks' =>
      match read_prop h obj k with
      | inl e => inl e
      | inr v => walk h v ks'
      end
  end.

(** The keys under which [set] looks up the intermediate segments of a
    path, and all its segments. *)
Definition intermediate_keys (its : bool → N → Z → string)
    (parts : list string) : list string :=
  map (DotDotty.coerce its) (removelast parts).

Definition set_keys (its : bool → N → Z → string) (parts : list string)
  : list string :=
  intermediate_keys its parts ++ [List.last parts "undefined"].

(** The container [set] creates before a segment [nextPart]: [[]] when
    [!isNaN(nextPart)], [{}] otherwise. *)
Definition container_for (nextPart : string) : kind :=
  if Num.isNaN nextPart then Mapping else Sequence.

(** A write has failed: it threw the module's error, or returned
    [undefined] although another value was to be assigned. *)
Definition write_failed (o : outcome) (v : value) : Prop :=
  match o with
  | Throw (Error _) => True
  | Throw TypeError => False
  | Return u => u = VUndefined ∧ v ≠ VUndefined
  end.

(** Between [h] and [h'] a container of [h] has changed at most in entries
    that now hold a container created in between. *)
Definition only_vivified (h h' : heap) : Prop :=
  ∀ l c, h !! l = Some c →
    ∃ c', h' !! l = Some c' ∧ c_kind c' = c_kind c ∧
      ∀ k, c_entries c' !! k = c_entries c !! k ∨
           ∃ l', c_entries c' !! k = Some (VRef l') ∧
                 h !! l' = None ∧ is_Some (h' !! l').


(** A stand-in for the environment's text of inexact numbers in closed
    examples; none of them reaches it. *)
Definition no_inexact_text : bool → N → Z → string :=
  λ _ _ _, EmptyString.

(** The heap with one container, the empty object [{}], at [T]. *)
Definition empty_target (T : loc) : heap := {[ T := Container Mapping ∅ ]}.

(** The object [{a: 1, b: 2}] of the module's documentation, at location 1. *)
Definition sample_target : heap :=
  {[ 1%positive :=
       Container Mapping {[ "a" := VNumber 1; "b" := VNumber 2 ]} ]}.

(** The object [{n: null, z: 0, f: false, e: ''}], at location 1. *)
Definition falsy_target : heap :=
  {[ 1%positive :=
       Container Mapping
         {[ "n" := VNull; "z" := VNumber 0; "f" := VBool false;
            "e" := VString EmptyString ]} ]}.


(** The object [{a: null}], at location 1. *)
Definition null_target : heap :=
  {[ 1%positive := Container Mapping {[ "a" := VNull ]} ]}.

(** A segment names its own key: [set] looks it up under the very text
    that [get] uses.  This holds for a segment that is not numeric, and for
    a numeral in the form [String] gives it, like "0" and "12". *)
Definition own_key (its : bool → N → Z → string) (s : string) : Prop :=
  DotDotty.coerce its s = s.


(** [get] has given up: it returned [undefined] or threw the module's
    error. *)
Definition gave_up (o : outcome) : Prop :=
  o = Return VUndefined ∨ ∃ msg, o = Throw (Error msg).

(** Every container of [h] is in [h'] as it was. *)
Definition old_unchanged (h h' : heap) : Prop :=
  ∀ l c, h !! l = Some c → h' !! l = Some c.

(** Of the containers of [h] exactly one differs in [h'], and in one entry
    only, whose key is among [ks]. *)
Definition one_entry_changed (ks : list string) (h h' : heap) : Prop :=
  ∃ l c k x,
    k ∈ ks ∧
    h !! l = Some c ∧
    h' !! l = Some (Container (c_kind c) (<[k := x]> (c_entries c))) ∧
    ∀ l0 c0, l0 ≠ l → h !! l0 = Some c0 → h' !! l0 = Some c0.

(** ** Tactics *)

Ltac unfold_monad :=
  unfold mbind, M_bind, mret, M_ret, read, write, alloc, throw, return_.

Ltac case_write e h Hw :=
  match goal with
  | |- context [write_prop ?a ?o ?k ?v] =>
      destruct (write_prop a o k v) as [e|h] eqn:Hw
  end.

(** * Properties *)

(** ** The built-ins *)

Lemma split_not_nil s : Str.split s ≠ [].
Proof.
  destruct s as [|a s]; simpl; [done|].
  destruct (Ascii.eqb a Str.dot); [done|].
  by destruct (Str.split s).
Qed.

(** [s.split('.').join('.')] is [s]. *)
Lemma join_split s : Str.join (Str.split s) = s.
Proof.
  induction s as [|a s IH]; simpl; [done|].
  destruct (Ascii.eqb a Str.dot) eqn:Ha.
  - apply Ascii.eqb_eq in Ha as ->.
    pose proof (split_not_nil s) as Hne.
    destruct (Str.split s) as [|x l]; [done|].
    by rewrite <- IH.
  - destruct (Str.split s) as [|x l] eqn:Hs; simpl in *.
    + by subst.
    + destruct l; simpl in *; by subst.
Qed.

(** ** Numerals that name their own key *)

Lemma append_assoc (a b c : string) : (a +:+ b) +:+ c = a +:+ (b +:+ c).
Proof.
  induction a as [|x a IH]; [done|].
  change (String x ((a +:+ b) +:+ c) = String x (a +:+ (b +:+ c))).
  by f_equal.
Qed.

Lemma append_nil_r (s : string) : s +:+ EmptyString = s.
Proof.
  induction s as [|a s IH]; [done|].
  change (String a (s +:+ EmptyString) = String a s). by f_equal.
Qed.

Lemma digit_value_range a d :
  Num.digit_value 10 a = Some d → (48 ≤ N_of_ascii a ≤ 57)%N.
Proof.
  unfold Num.digit_value. intros Hd.
  repeat (match type of Hd with
          | context [N.leb ?x ?y] => destruct (N.leb_spec x y)
          | context [N.ltb ?x ?y] => destruct (N.ltb_spec x y)
          end; simpl in Hd); try done; lia.
Qed.

Lemma digit_not_white_space a d :
  Num.digit_value 10 a = Some d → Num.is_white_space a = false.
Proof.
  intros Hd%digit_value_range. unfold Num.is_white_space.
  destruct (N.leb_spec 9 (N_of_ascii a)), (N.leb_spec (N_of_ascii a) 13),
    (N.eqb_spec (N_of_ascii a) 32), (N.eqb_spec (N_of_ascii a) 160);
    simpl; try done; lia.
Qed.

(** A decimal digit is none of the characters the grammar gives a meaning
    of their own. *)
Lemma digit_not_other a d c :
  Num.digit_value 10 a = Some d →
  Num.digit_value 10 c = None →
  Ascii.eqb a c = false.
Proof.
  intros Ha Hc. destruct (Ascii.eqb_spec a c) as [->|]; [congruence|done].
Qed.

Lemma digits_value_app b acc s t :
  Num.digits_value b acc (s +:+ t)
  = match Num.digits_value b acc s with
    | Some acc' => Num.digits_value b acc' t
    | None => None
    end.
Proof.
  revert acc. induction s as [|a s IH]; intros acc; [done|].
  change (String a s +:+ t) with (String a (s +:+ t)). simpl.
  destruct (Num.digit_value b a); [apply IH|done].
Qed.

Lemma pretty_N_char_digit d :
  (d < 10)%N → Num.digit_value 10 (pretty_N_char d) = Some d.
Proof.
  intros Hd.
  assert (d = 0 ∨ d = 1 ∨ d = 2 ∨ d = 3 ∨ d = 4 ∨ d = 5 ∨ d = 6 ∨ d = 7
          ∨ d = 8 ∨ d = 9)%N as Hcases by lia.
  repeat (destruct Hcases as [->|Hcases]; [done|]). by subst.
Qed.

Lemma pretty_N_go_app n s : pretty_N_go n s = pretty_N_go n EmptyString +:+ s.
Proof.
  revert s. induction (N.lt_wf_0 n) as [n _ IH]; intros s.
  assert (n = 0 ∨ 0 < n)%N as [->|Hn] by lia; [done|].
  assert (n `div` 10 < n)%N as Hlt by (by apply N.div_lt).
  rewrite !(pretty_N_go_step n) by done.
  rewrite (IH _ Hlt (String _ s)), (IH _ Hlt (String _ EmptyString)).
  by rewrite append_assoc.
Qed.

(** Parsing the digits of [n] gives [n] back. *)
Lemma digits_value_pretty_go n :
  Num.digits_value 10 0 (pretty_N_go n EmptyString) = Some n.
Proof.
  induction (N.lt_wf_0 n) as [n _ IH].
  assert (n = 0 ∨ 0 < n)%N as [->|Hn] by lia; [done|].
  rewrite pretty_N_go_step, pretty_N_go_app, digits_value_app by done.
  rewrite IH by (by apply N.div_lt). simpl.
  rewrite pretty_N_char_digit by (by apply N.mod_lt).
  f_equal. rewrite (N.div_mod n 10) at 3 by done. lia.
Qed.

Lemma pretty_N_go_nonempty n :
  (0 < n)%N → pretty_N_go n EmptyString ≠ EmptyString.
Proof.
  intros Hn Hempty. pose proof (digits_value_pretty_go n) as Hval.
  rewrite Hempty in Hval. simpl in Hval. injection Hval. lia.
Qed.

Lemma digits_value_pretty (n : N) : Num.digits_value 10 0 (pretty n) = Some n.
Proof.
  unfold pretty, pretty_N. case_decide as Hn; [by subst|].
  apply digits_value_pretty_go.
Qed.

Lemma pretty_N_nonempty (n : N) : pretty n ≠ EmptyString.
Proof.
  unfold pretty, pretty_N. case_decide as Hn; [done|].
  apply pretty_N_go_nonempty. lia.
Qed.

Lemma digits_trim_start s acc r :
  Num.digits_value 10 acc s = Some r → Num.trim_start s = s.
Proof.
  destruct s as [|a t]; [done|]. simpl.
  destruct (Num.digit_value 10 a) as [d|] eqn:Ha; [|done].
  by rewrite (digit_not_white_space _ _ Ha).
Qed.

Lemma digits_trim_end s acc r :
  Num.digits_value 10 acc s = Some r → Num.trim_end s = s.
Proof.
  revert acc. induction s as [|a t IH]; intros acc; [done|]. simpl.
  destruct (Num.digit_value 10 a) as [d|] eqn:Ha; [|done].
  intros Ht. rewrite (IH _ Ht), (digit_not_white_space _ _ Ha).
  by destruct t.
Qed.

Lemma digits_span s acc r :
  Num.digits_value 10 acc s = Some r → Num.span_digits s = (s, EmptyString).
Proof.
  revert acc. induction s as [|a t IH]; intros acc; [done|]. simpl.
  destruct (Num.digit_value 10 a) as [d|] eqn:Ha; [|done].
  intros Ht. by rewrite (IH _ Ht).
Qed.

(** [Number] reads the decimal text of [n] as [n]. *)
Lemma of_string_pretty (n : N) :
  Num.of_string (pretty n) = Num.Finite false n 0.
Proof.
  pose proof (digits_value_pretty n) as Hval.
  pose proof (pretty_N_nonempty n) as Hne.
  destruct (pretty n) as [|a t] eqn:Hs; [done|].
  assert (∃ d, Num.digit_value 10 a = Some d) as [d Ha].
  { simpl in Hval. destruct (Num.digit_value 10 a); [by eexists|done]. }
  unfold Num.of_string, Num.trim.
  rewrite (digits_trim_start _ _ _ Hval), (digits_trim_end _ _ _ Hval).
  assert (Num.radix_prefix (String a t) = None) as ->.
  { unfold Num.radix_prefix. destruct t as [|x t]; [done|].
    destruct (Ascii.eqb a "0"); [|done].
    assert (∃ d', Num.digit_value 10 x = Some d') as [d' Hx].
    { simpl in Hval. rewrite Ha in Hval. simpl in Hval.
      destruct (Num.digit_value 10 x); [by eexists|done]. }
    by rewrite !(digit_not_other _ _ _ Hx). }
  unfold Num.sign_prefix.
  rewrite !(digit_not_other _ _ _ Ha) by done.
  unfold Num.unsigned_decimal.
  destruct (String.eqb_spec (String a t) "Infinity") as [Hinf|_].
  { rewrite Hinf in Hval. done. }
  rewrite (digits_span _ _ _ Hval), append_nil_r, Hval. done.
Qed.

(** The decimal text of a natural number up to [2^53 - 1] names its own
    key; so does every segment that is not numeric. *)
Lemma canonical_numeral_own_key its (n : N) :
  (n ≤ 2 ^ 53 - 1)%N → own_key its (pretty n).
Proof.
  intros Hn. unfold own_key, DotDotty.coerce, Num.isNaN, Num.to_key.
  rewrite of_string_pretty. simpl negb. cbv iota.
  unfold Num.safe_integer. change (0 <=? 0) with true. cbv iota zeta.
  rewrite Z.pow_0_r, Z.mul_1_r.
  destruct (Z.leb_spec (Z.of_N n) (2 ^ 53 - 1)) as [_|Hgt]; [|lia].
  by destruct n.
Qed.

Lemma non_numeric_own_key its s : Num.isNaN s = true → own_key its s.
Proof. intros Hs. unfold own_key, DotDotty.coerce. by rewrite Hs. Qed.

(** Every decimal numeral is numeric. *)
Lemma numeral_is_numeric (n : N) : Num.isNaN (pretty n) = false.
Proof. unfold Num.isNaN. by rewrite of_string_pretty. Qed.

(** On a path whose intermediate segments name their own keys, [set] looks
    every segment up as it is written, like [get]. *)
Lemma set_keys_own its parts :
  parts ≠ [] →
  Forall (own_key its) (removelast parts) →
  set_keys its parts = parts.
Proof.
  intros Hne Hown. unfold set_keys, intermediate_keys.
  rewrite (app_removelast_last "undefined" Hne) at 3. f_equal.
  induction Hown as [|s l Hs _ IH]; [done|]. simpl. by rewrite Hs, IH.
Qed.

(** ** Reads and writes *)

Lemma fresh_loc_is_fresh (h : heap) : h !! fresh_loc h = None.
Proof. unfold fresh_loc. apply (not_elem_of_dom (D := gset loc)), is_fresh. Qed.

Lemma walk_app h obj ks ks' :
  walk h obj (ks ++ ks') =
    match walk h obj ks with
    | inl e => inl e
    | inr v => walk h v ks'
    end.
Proof.
  revert obj. induction ks as [|k ks IH]; intros obj; simpl; [done|].
  destruct (read_prop h obj k); [done|apply IH].
Qed.

(** A chain of reads through [undefined] throws, so a chain that yields a
    value went through defined values only. *)
Lemma walk_undefined h ks v :
  walk h VUndefined ks = inr v → ks = [] ∧ v = VUndefined.
Proof. destruct ks; simpl; [by intros [= <-]|done]. Qed.

Lemma read_prop_error h o k e : read_prop h o k = inl e → e = TypeError.
Proof. destruct o; simpl; congruence. Qed.

Lemma write_prop_error h o k v e : write_prop h o k v = inl e → e = TypeError.
Proof. destruct o; simpl; try congruence. destruct (h !! l); congruence. Qed.

Lemma write_prop_ref h l c k v :
  h !! l = Some c →
  write_prop h (VRef l) k v
  = inr (<[l := Container (c_kind c) (<[k := v]> (c_entries c))]> h).
Proof. intros Hl. simpl. by rewrite Hl. Qed.

(** What was written is read back. *)
Lemma write_read h o k v h' :
  write_prop h o k v = inr h' → read_prop h' o k = inr v.
Proof.
  destruct o; simpl; try done.
  destruct (h !! l) as [c|]; [|done]. intros [= <-].
  unfold lookup_entry. rewrite lookup_insert_eq. simpl.
  by rewrite lookup_insert_eq.
Qed.

(** A read of an object type is not [undefined]. *)
Lemma typeof_object_defined v :
  String.eqb (typeof v) "object" = true → is_undefined v = false.
Proof. by destruct v. Qed.

(** ** The loop of [set] *)

Section Loop.

Variable its : bool → N → Z → string.
Variable opts : options.
Variables (prop : string) (parts : list string).

Lemma set_loop_cons i p q r obj :
  DotDotty.set_loop its opts prop parts i (p :: q :: r) obj =
    (obj ← DotDotty.set_iteration its opts prop parts i p q obj;
     DotDotty.set_loop its opts prop parts (S i) (q :: r) obj).
Proof. done. Qed.

Lemma set_loop_last i p obj :
  DotDotty.set_loop its opts prop parts i [p] obj = mret obj.
Proof. done. Qed.

(** Without expansion an iteration only reads. *)
Lemma set_iteration_frozen i p q obj h :
  isExpandable opts = false →
  DotDotty.set_iteration its opts prop parts i p q obj h =
    match read_prop h obj (DotDotty.coerce its p) with
    | inl e => (Exit (Throw e), h)
    | inr cur =>
        if is_undefined cur then
          (Exit (if throwErrors opts
                 then Throw (DotDotty.invalid_target (DotDotty.coerce its p)
                               parts i prop)
                 else Return VUndefined), h)
        else (Ok cur, h)
    end.
Proof.
  intros Hexp. unfold DotDotty.set_iteration.
  rewrite Hexp. unfold_monad.
  destruct (read_prop h obj (DotDotty.coerce its p)) as [e|cur] eqn:Hread;
    [done|].
  destruct (is_undefined cur); [by destruct (throwErrors opts)|].
  by rewrite Hread.
Qed.


(** Without expansion the loop leaves the heap as it is. *)
Lemma set_loop_frozen rest i obj h r h' :
  isExpandable opts = false →
  DotDotty.set_loop its opts prop parts i rest obj h = (r, h') → h' = h.
Proof.
  intros Hexp. revert i obj.
  induction rest as [|p rest IH]; intros i obj; [by intros [= _ <-]|].
  destruct rest as [|q rest]; [by intros [= _ <-]|].
  rewrite set_loop_cons. unfold mbind, M_bind.
  rewrite set_iteration_frozen by done.
  destruct (read_prop h obj (DotDotty.coerce its p)) as [e|cur];
    [by intros [= _ <-]|].
  destruct (is_undefined cur); [by intros [= _ <-]|apply IH].
Qed.




Lemma undefined_or_not_object_run obj part h :
  DotDotty.undefined_or_not_object obj part h =
    match read_prop h obj part with
    | inl e => (Exit (Throw e), h)
    | inr cur => (Ok (negb (String.eqb (typeof cur) "object")), h)
    end.
Proof.
  unfold DotDotty.undefined_or_not_object. unfold_monad.
  destruct (read_prop h obj part) as [e|cur] eqn:Hread; [done|].
  destruct cur; simpl; by rewrite ?Hread.
Qed.

(** With expansion an iteration goes down into an object it finds, and
    otherwise stores a new container and goes down into it. *)
Lemma set_iteration_expandable i p q obj h :
  isExpandable opts = true →
  DotDotty.set_iteration its opts prop parts i p q obj h =
    match read_prop h obj (DotDotty.coerce its p) with
    | inl e => (Exit (Throw e), h)
    | inr cur =>
        if String.eqb (typeof cur) "object" then (Ok cur, h)
        else
          let '(l, h1) := alloc_prop h (container_for q) in
          match write_prop h1 obj (DotDotty.coerce its p) (VRef l) with
          | inl e => (Exit (Throw e), h1)
          | inr h2 => (Ok (VRef l), h2)
          end
    end.
Proof.
  intros Hexp. unfold DotDotty.set_iteration.
  rewrite Hexp.
  assert (∀ kd,
    (c ← DotDotty.undefined_or_not_object obj (DotDotty.coerce its p);
     if (c : bool) then (a ← alloc kd; write obj (DotDotty.coerce its p) a)
     else mret ()) h
    = match read_prop h obj (DotDotty.coerce its p) with
      | inl e => (Exit (Throw e), h)
      | inr cur =>
          if String.eqb (typeof cur) "object" then (Ok (), h)
          else
            let '(l, h1) := alloc_prop h kd in
            match write_prop h1 obj (DotDotty.coerce its p) (VRef l) with
            | inl e => (Exit (Throw e), h1)
            | inr h2 => (Ok (), h2)
            end
      end) as Hviv.
  { intros kd. unfold mbind at 1, M_bind at 1.
    rewrite undefined_or_not_object_run.
    destruct (read_prop h obj (DotDotty.coerce its p)) as [e|cur]; [done|].
    destruct (String.eqb (typeof cur) "object"); [done|].
    unfold_monad. cbv beta iota zeta delta [negb alloc_prop].
    by case_write e h2 Hw. }
  unfold container_for.
  unfold mbind at 1, M_bind at 1.
  destruct (Num.isNaN q); cbv beta iota delta [negb]; rewrite Hviv; clear Hviv.
  all: destruct (read_prop h obj (DotDotty.coerce its p)) as [e|cur] eqn:Hread;
    [done|].
  all: destruct (String.eqb (typeof cur) "object") eqn:Hty.
  all: unfold_monad; cbv beta iota zeta delta [alloc_prop].
  all: try (rewrite Hread, (typeof_object_defined _ Hty); by rewrite Hread).
  all: case_write e h2 Hw; [done|].
  all: rewrite (write_read _ _ _ _ _ Hw); cbv beta iota delta [is_undefined].
  all: by rewrite (write_read _ _ _ _ _ Hw).
Qed.

(** With expansion the loop never gives up by itself: if it does not
    complete, the language has thrown. *)
Lemma set_iteration_expandable_exit i p q obj h o h' :
  isExpandable opts = true →
  DotDotty.set_iteration its opts prop parts i p q obj h = (Exit o, h') →
  o = Throw TypeError.
Proof.
  intros Hexp. rewrite set_iteration_expandable by done.
  destruct (read_prop h obj (DotDotty.coerce its p)) as [e|cur] eqn:Hread.
  { intros [= <- _]. by rewrite (read_prop_error _ _ _ _ Hread). }
  destruct (String.eqb (typeof cur) "object"); [done|].
  cbv beta iota zeta delta [alloc_prop].
  case_write e h2 Hw; [|done].
  intros [= <- _]. by rewrite (write_prop_error _ _ _ _ _ Hw).
Qed.

Lemma set_loop_expandable_exit rest i obj h o h' :
  isExpandable opts = true →
  DotDotty.set_loop its opts prop parts i rest obj h = (Exit o, h') →
  o = Throw TypeError.
Proof.
  intros Hexp. revert i obj h.
  induction rest as [|p rest IH]; intros i obj h; [done|].
  destruct rest as [|q rest]; [done|].
  rewrite set_loop_cons. unfold mbind, M_bind.
  destruct (DotDotty.set_iteration its opts prop parts i p q obj h)
    as [[obj'|o'] h1] eqn:Hit.
  - apply IH.
  - intros [= <- _]. by eapply set_iteration_expandable_exit.
Qed.

End Loop.

(** ** After the loop *)

Lemma set_finish_run opts prop parts v obj h :
  DotDotty.set_finish opts prop parts v obj h =
    let last := List.last parts "undefined" in
    match read_prop h obj last with
    | inl e => (Exit (Throw e), h)
    | inr cur =>
        if is_undefined cur && negb (isExpandable opts) then
          (Exit (if throwErrors opts
                 then Throw (DotDotty.invalid_target last parts
                               (length parts - 1) prop)
                 else Return VUndefined), h)
        else
          match write_prop h obj last v with
          | inl e => (Exit (Throw e), h)
          | inr h' => (Exit (Return v), h')
          end
    end.
Proof.
  unfold DotDotty.set_finish. unfold_monad. cbv zeta.
  destruct (read_prop h obj _) as [e|cur]; [done|].
  destruct (is_undefined cur), (isExpandable opts), (throwErrors opts);
    cbv beta iota delta [negb andb]; try done.
  all: by case_write e h' Hw.
Qed.

(** An immutable [set] returns at once. *)
Lemma set_immutable its opts h T prop v :
  isImmutable opts = true →
  DotDotty.set its opts h T prop v = (Return VUndefined, h).
Proof.
  intros Himm. unfold DotDotty.set, DotDotty.set_body, call.
  by rewrite Himm.
Qed.

(** The whole of [set], once it is not immutable. *)
Lemma set_mutable its opts h T prop v :
  isImmutable opts = false →
  DotDotty.set its opts h T prop v =
    match DotDotty.set_loop its opts prop (Str.split prop) 0 (Str.split prop)
            (VRef T) h with
    | (Ok obj, h1) =>
        call (DotDotty.set_finish opts prop (Str.split prop) v obj) h1
    | (Exit o, h1) => (o, h1)
    end.
Proof.
  intros Himm. unfold DotDotty.set, DotDotty.set_body, call.
  rewrite Himm. cbv zeta. unfold mbind, M_bind.
  by destruct (DotDotty.set_loop _ _ _ _ _ _ _ h) as [[obj|o] h1].
Qed.

(** A failed write leaves the heap as it was. *)
Lemma set_failure_unchanged its opts h T prop v o h' :
  DotDotty.set its opts h T prop v = (o, h') →
  write_failed o v → h' = h.
Proof.
  destruct (isImmutable opts) eqn:Himm.
  { rewrite set_immutable by done. by intros [= _ <-]. }
  rewrite set_mutable by done.
  destruct (DotDotty.set_loop _ _ _ _ _ _ _ h) as [[obj|o1] h1] eqn:Hloop.
  - unfold call. rewrite set_finish_run. cbv zeta.
    destruct (isExpandable opts) eqn:Hexp.
    + destruct (read_prop h1 obj _) as [e|cur] eqn:Hread.
      { intros [= <- _]. by rewrite (read_prop_error _ _ _ _ Hread). }
      change (negb true) with false. rewrite andb_false_r.
      case_write e h2 Hw.
      * intros [= <- _]. by rewrite (write_prop_error _ _ _ _ _ Hw).
      * intros [= <- _] [-> ?]. done.
    + apply set_loop_frozen in Hloop as ->; [|done].
      destruct (read_prop h obj _) as [e|cur] eqn:Hread.
      { intros [= <- _]. by rewrite (read_prop_error _ _ _ _ Hread). }
      destruct (is_undefined cur && negb false); [by intros [= _ <-]|].
      case_write e h2 Hw.
      * intros [= <- _]. by rewrite (write_prop_error _ _ _ _ _ Hw).
      * intros [= <- _] [-> ?]. done.
  - intros [= <- <-]. destruct (isExpandable opts) eqn:Hexp.
    + by rewrite (set_loop_expandable_exit _ _ _ _ _ _ _ _ _ _ Hexp Hloop).
    + intros _. by eapply set_loop_frozen.
Qed.

(** ** The loop of [get] *)

(** [get] returns what the chain of reads yields, when that is defined. *)
Lemma get_loop_walk opts h prop parts rest i obj v :
  walk h obj rest = inr v → v ≠ VUndefined →
  DotDotty.get_loop opts h prop parts i rest obj = Return v.
Proof.
  revert i obj. induction rest as [|k rest IH]; intros i obj; simpl.
  { by intros [= ->]. }
  destruct (read_prop h obj k) as [e|cur]; [done|].
  intros Hwalk Hv. destruct cur; simpl; try by apply IH.
  apply walk_undefined in Hwalk as [_ ->]. done.
Qed.

(** When [get] gives up, a read has yielded [undefined]; the error names
    that segment and its index. *)
Lemma get_loop_gives_up opts h prop parts rest i obj :
  obj ≠ VUndefined →
  gave_up (DotDotty.get_loop opts h prop parts i rest obj) →
  ∃ j part,
    rest !! j = Some part ∧
    walk h obj (take (S j) rest) = inr VUndefined ∧
    DotDotty.get_loop opts h prop parts i rest obj
    = if throwErrors opts
      then Throw (DotDotty.invalid_target part parts (i + j) prop)
      else Return VUndefined.
Proof.
  revert i obj. induction rest as [|k rest IH]; intros i obj Hobj; simpl.
  { intros [[= ->]|[msg [=]]]. done. }
  destruct (read_prop h obj k) as [e|cur] eqn:Hread.
  { rewrite (read_prop_error _ _ _ _ Hread). by intros [[=]|[msg [=]]]. }
  destruct (is_undefined cur) eqn:Hcur.
  - intros _. exists 0%nat, k. rewrite Nat.add_0_r, take_0.
    cbn [lookup list_lookup walk]. by destruct cur.
  - intros Hgave. destruct (IH (S i) cur) as (j & part & Hj & Hwalk & Hget).
    { by destruct cur. } { done. }
    exists (S j), part. rewrite Nat.add_succ_r.
    by repeat split.
Qed.

(** ** Writing through fresh containers, then reading *)

Section RoundTrip.

Variable its : bool → N → Z → string.
Variable opts : options.
Variable v : value.
Hypothesis Hexp : isExpandable opts = true.
Hypothesis Hv : v ≠ VUndefined.


End RoundTrip.

(** * Properties of the specification

    In the statements [its] stands for [inexact_to_string]; [h] is the heap
    before the call and [T] the location of the target in it. *)

(** ** Guards of [set] *)

(** C5. When [isImmutable] is true, [set(p, v)] changes nothing in the heap,
    so nothing of the target, and returns [undefined], for every target,
    path and value. *)
Theorem immutable_set_is_noop its opts h T prop v :
  isImmutable opts = true →
  DotDotty.set its opts h T prop v = (Return VUndefined, h).
Proof. apply set_immutable. Qed.

Lemma immutable_set_is_noop_sample :
  DotDotty.set no_inexact_text (Options true true true) sample_target 1%positive
    "c.cA" (VBool true)
  = (Return VUndefined, sample_target).
Proof. apply immutable_set_is_noop. reflexivity. Defined.





(** C8. When a write fails (it throws the module's error, or returns
    [undefined] instead of the value to assign), every container of the
    heap is still there, of the same kind, and its entries are unchanged
    except where they now hold a container created by the call: nothing but
    auto-vivified containers has changed and none of them is taken back.
    ([set_failure_unchanged] shows more: no container is created before a
    failure.) *)
Theorem failed_set_only_vivifies its opts h T prop v o h' :
  DotDotty.set its opts h T prop v = (o, h') →
  write_failed o v →
  only_vivified h h'.
Proof.
  intros Hset Hfail. rewrite (set_failure_unchanged _ _ _ _ _ _ _ _ Hset Hfail).
  intros l c Hl. exists c. split; [done|]. split; [done|]. by left.
Qed.

Lemma failed_set_only_vivifies_sample :
  only_vivified sample_target sample_target.
Proof.
  apply (failed_set_only_vivifies no_inexact_text (Options false false true)
           sample_target 1%positive "x.y" (VNumber 1)
           (Throw (DotDotty.invalid_target "x" ["x"; "y"] 0 "x.y"))).
  - vm_compute. reflexivity.
  - exact I.
Defined.

(** ** Failures of [get] *)




(** C10. In [get] only a read that yields [undefined] leads to the failure
    branch: whenever the chain of reads along the path yields a value other
    than [undefined], [get] returns that value, in particular the falsy
    values [null], [0], [false] and the empty string; and when [get] gives
    up (an error or [undefined]), some read along the path has yielded
    [undefined]. *)
Theorem get_gives_up_only_on_undefined opts h T prop :
  (∀ v, walk h (VRef T) (Str.split prop) = inr v → v ≠ VUndefined →
        DotDotty.get opts h T prop = Return v) ∧
  (gave_up (DotDotty.get opts h T prop) →
   ∃ j, (j < length (Str.split prop))%nat ∧
        walk h (VRef T) (take (S j) (Str.split prop)) = inr VUndefined) ∧
  Forall (λ v, walk h (VRef T) (Str.split prop) = inr v →
               DotDotty.get opts h T prop = Return v)
         [VNull; VNumber 0; VBool false; VString EmptyString].
Proof.
  assert (∀ v, walk h (VRef T) (Str.split prop) = inr v → v ≠ VUndefined →
               DotDotty.get opts h T prop = Return v) as Hdef.
  { intros v Hwalk Hv. by apply get_loop_walk. }
  split; [done|]. split.
  - intros Hgave.
    destruct (get_loop_gives_up opts h prop (Str.split prop) (Str.split prop)
                0 (VRef T)) as (j & part & Hj & Hwalk & _); [done|done|].
    exists j. split; [by eapply lookup_lt_Some|done].
  - repeat constructor; intros Hwalk; by apply Hdef.
Qed.

Lemma get_gives_up_only_on_undefined_sample :
  DotDotty.get default_options falsy_target 1%positive "n" = Return VNull.
Proof.
  apply (proj1 (get_gives_up_only_on_undefined default_options falsy_target
                  1%positive "n")).
  - vm_compute. reflexivity.
  - discriminate.
Defined.



(** ** Auto-vivification *)

(** With expansion, where the entry of a segment is [undefined] or not of
    an object type, an iteration stores a new empty container there and goes
    on inside it. *)
Lemma set_iteration_vivify its opts prop parts i p q l c cur h :
  isExpandable opts = true →
  h !! l = Some c →
  read_prop h (VRef l) (DotDotty.coerce its p) = inr cur →
  String.eqb (typeof cur) "object" = false →
  DotDotty.set_iteration its opts prop parts i p q (VRef l) h
  = (Ok (VRef (fresh_loc h)),
     <[l := Container (c_kind c)
              (<[DotDotty.coerce its p := VRef (fresh_loc h)]> (c_entries c))]>
       (<[fresh_loc h := Container (container_for q) ∅]> h)).
Proof.
  intros Hexp Hl Hread Hty.
  rewrite set_iteration_expandable, Hread, Hty by done.
  cbv beta iota zeta delta [alloc_prop].
  rewrite (write_prop_ref _ l c); [done|].
  rewrite lookup_insert_ne; [done|].
  intros Heq. pose proof (fresh_loc_is_fresh h). congruence.
Qed.

(** C3, amended. A segment is treated as numeric exactly when [isNaN] is
    false of it, that is when [Number] parses the whole of it: "0", "12"
    and also the empty string (which [Number] converts to 0) qualify, "a"
    does not.  This decides the container [set] creates, with expansion,
    where the entry of the preceding segment is [undefined] or not of an
    object type: a new empty sequence when the next segment is numeric, a
    new empty mapping when it is not. *)
Theorem next_segment_decides_container its opts prop parts i p q l c cur h :
  (Num.isNaN "0" = false ∧ Num.isNaN "12" = false ∧
   Num.isNaN EmptyString = false ∧ Num.isNaN "a" = true) ∧
  (isExpandable opts = true →
   h !! l = Some c →
   read_prop h (VRef l) (DotDotty.coerce its p) = inr cur →
   cur = VUndefined ∨ typeof cur ≠ "object" →
   DotDotty.set_iteration its opts prop parts i p q (VRef l) h
   = (Ok (VRef (fresh_loc h)),
      <[l := Container (c_kind c)
               (<[DotDotty.coerce its p := VRef (fresh_loc h)]> (c_entries c))]>
        (<[fresh_loc h :=
             Container (if Num.isNaN q then Mapping else Sequence) ∅]> h))).
Proof.
  split; [by vm_compute|].
  intros Hexp Hl Hread Hcur.
  eapply set_iteration_vivify; [done..|].
  destruct Hcur as [->|Hty]; [done|]. by apply String.eqb_neq.
Qed.

Lemma next_segment_decides_container_sample :
  ∃ h',
    DotDotty.set_iteration no_inexact_text default_options "d.0.a"
      ["d"; "0"; "a"] 0 "d" "0" (VRef 1%positive) sample_target
    = (Ok (VRef (fresh_loc sample_target)), h') ∧
    h' !! fresh_loc sample_target = Some (Container Sequence ∅).
Proof.
  eexists. split.
  - apply (proj2 (next_segment_decides_container no_inexact_text
                    default_options "d.0.a" ["d"; "0"; "a"] 0 "d" "0"
                    1%positive
                    (Container Mapping {[ "a" := VNumber 1; "b" := VNumber 2 ]})
                    VUndefined sample_target)).
    + reflexivity.
    + reflexivity.
    + vm_compute. reflexivity.
    + by left.
  - vm_compute. reflexivity.
Defined.

(** C3 as stated fails: the empty string is numeric for [isNaN], so that a
    segment before an empty segment becomes a sequence. *)
Lemma empty_segment_is_numeric :
  Num.isNaN EmptyString = false ∧
  ∃ h' a,
    DotDotty.set no_inexact_text default_options (empty_target 1%positive)
      1%positive "a..b" (VNumber 1) = (Return (VNumber 1), h') ∧
    lookup_entry h' 1%positive "a" = Some (VRef a) ∧
    c_kind <$> h' !! a = Some Sequence.
Proof.
  split; [reflexivity|].
  eexists _, _. split; [vm_compute; reflexivity|].
  split; vm_compute; reflexivity.
Qed.

(** ** Writing, then reading *)




Lemma read_prop_ref h l c k :
  h !! l = Some c →
  read_prop h (VRef l) k = inr (default VUndefined (c_entries c !! k)).
Proof. intros Hl. unfold read_prop, lookup_entry. by rewrite Hl. Qed.

(** C1. On the empty object [T = {}], in any heap, with the default
    options, [set("d.0.a", "test")] returns "test" and makes [T.d] a new
    sequence whose entry 0 is a new mapping, [{a: "test"}]; a following
    [get("d.0.a")] returns "test". *)
Theorem set_numeric_segment_makes_sequence its h T :
  h !! T = Some (Container Mapping ∅) →
  ∃ h' d e,
    DotDotty.set its default_options h T "d.0.a" (VString "test")
    = (Return (VString "test"), h') ∧
    h' !! T = Some (Container Mapping {[ "d" := VRef d ]}) ∧
    h' !! d = Some (Container Sequence {[ "0" := VRef e ]}) ∧
    h' !! e = Some (Container Mapping {[ "a" := VString "test" ]}) ∧
    h !! d = None ∧ h !! e = None ∧
    DotDotty.get default_options h' T "d.0.a" = Return (VString "test").
Proof.
  intros HT.
  pose proof (fresh_loc_is_fresh h) as Hd. set (d := fresh_loc h) in *.
  set (h1 := <[T := Container Mapping {[ "d" := VRef d ]}]>
               (<[d := Container Sequence ∅]> h)).
  pose proof (fresh_loc_is_fresh h1) as He. set (e := fresh_loc h1) in *.
  set (h2 := <[d := Container Sequence {[ "0" := VRef e ]}]>
               (<[e := Container Mapping ∅]> h1)).
  set (h3 := <[e := Container Mapping {[ "a" := VString "test" ]}]> h2).
  assert (T ≠ d) as HTd by congruence.
  assert (h1 !! T = Some (Container Mapping {[ "d" := VRef d ]})) as H1T.
  { unfold h1. by rewrite lookup_insert_eq. }
  assert (h1 !! d = Some (Container Sequence ∅)) as H1d.
  { unfold h1. by rewrite lookup_insert_ne, lookup_insert_eq. }
  assert (T ≠ e) as HTe by congruence.
  assert (d ≠ e) as Hde by congruence.
  assert (DotDotty.set its default_options h T "d.0.a" (VString "test")
          = (Return (VString "test"), h3)) as Hset.
  { rewrite set_mutable by done.
    change (Str.split "d.0.a") with ["d"; "0"; "a"].
    rewrite set_loop_cons. unfold mbind at 1, M_bind at 1.
    rewrite (set_iteration_vivify _ _ _ _ _ _ _ T (Container Mapping ∅)
               VUndefined);
      try done.
    2:{ unfold read_prop, lookup_entry. by rewrite HT. }
    change (DotDotty.coerce its "d") with "d".
    change (container_for "0") with Sequence.
    cbn [c_kind c_entries]. fold d.
    change (<["d" := VRef d]> ∅)
      with ({[ "d" := VRef d ]} : gmap string value).
    fold h1.
    rewrite set_loop_cons. unfold mbind at 1, M_bind at 1.
    rewrite (set_iteration_vivify _ _ _ _ _ _ _ d (Container Sequence ∅)
               VUndefined);
      try done.
    2:{ unfold read_prop, lookup_entry. by rewrite H1d. }
    change (DotDotty.coerce its "0") with "0".
    change (container_for "a") with Mapping.
    cbn [c_kind c_entries]. fold e.
    change (<["0" := VRef e]> ∅)
      with ({[ "0" := VRef e ]} : gmap string value).
    fold h2.
    rewrite set_loop_last. unfold mret, M_ret, call.
    rewrite set_finish_run. cbv zeta.
    change (List.last ["d"; "0"; "a"] "undefined") with "a".
    assert (h2 !! e = Some (Container Mapping ∅)) as H2e.
    { unfold h2. by rewrite lookup_insert_ne, lookup_insert_eq. }
    simpl read_prop. unfold lookup_entry. rewrite H2e. simpl. by rewrite H2e. }
  exists h3, d, e. split; [done|].
  assert (h3 !! T = Some (Container Mapping {[ "d" := VRef d ]})) as H3T.
  { unfold h3, h2. by rewrite !lookup_insert_ne. }
  assert (h3 !! d = Some (Container Sequence {[ "0" := VRef e ]})) as H3d.
  { unfold h3, h2. by rewrite lookup_insert_ne, lookup_insert_eq. }
  assert (h3 !! e = Some (Container Mapping {[ "a" := VString "test" ]}))
    as H3e.
  { unfold h3. by rewrite lookup_insert_eq. }
  repeat (split; [done|]). split.
  { unfold h1 in He. by rewrite !lookup_insert_ne in He. }
  apply get_loop_walk; [|done].
  change (Str.split "d.0.a") with ["d"; "0"; "a"]. cbn [walk].
  rewrite (read_prop_ref _ _ _ _ H3T). cbn [c_entries].
  rewrite lookup_singleton_eq. cbn [default].
  rewrite (read_prop_ref _ _ _ _ H3d). cbn [c_entries].
  rewrite lookup_singleton_eq. cbn [default].
  rewrite (read_prop_ref _ _ _ _ H3e). cbn [c_entries].
  by rewrite lookup_singleton_eq.
Qed.

Lemma set_numeric_segment_makes_sequence_sample :
  ∃ h' d e,
    DotDotty.set no_inexact_text default_options (empty_target 1%positive)
      1%positive "d.0.a" (VString "test")
    = (Return (VString "test"), h') ∧
    h' !! 1%positive = Some (Container Mapping {[ "d" := VRef d ]}) ∧
    h' !! d = Some (Container Sequence {[ "0" := VRef e ]}) ∧
    h' !! e = Some (Container Mapping {[ "a" := VString "test" ]}) ∧
    empty_target 1%positive !! d = None ∧
    empty_target 1%positive !! e = None ∧
    DotDotty.get default_options h' 1%positive "d.0.a"
    = Return (VString "test").
Proof.
  apply (set_numeric_segment_makes_sequence no_inexact_text
           (empty_target 1%positive) 1%positive).
  reflexivity.
Defined.

(** ** A [null] on the path *)

(** C4 fails on the code.  With [throwErrors] false, on [{a: null}], both
    [get("a.b")] and [set("a.b", 1)] let the [TypeError] of a read from
    [null] escape instead of returning [undefined]. *)
Theorem null_on_path_throws :
  throwErrors (Options false true false) = false ∧
  DotDotty.get (Options false true false) null_target 1%positive "a.b"
  = Throw TypeError ∧
  DotDotty.set no_inexact_text (Options false true false) null_target
    1%positive "a.b" (VNumber 1)
  = (Throw TypeError, null_target).
Proof. repeat split; vm_compute; reflexivity. Qed.

(** What does hold without [throwErrors]: [get] never throws the module's
    own error. *)
Lemma get_quiet opts h T prop msg :
  throwErrors opts = false →
  DotDotty.get opts h T prop ≠ Throw (Error msg).
Proof.
  intros Hthrow Hget.
  destruct (get_loop_gives_up opts h prop (Str.split prop) (Str.split prop)
              0 (VRef T)) as (i & part & _ & _ & Hout); [done| |].
  { right. by exists msg. }
  unfold DotDotty.get in Hget. by rewrite Hget, Hthrow in Hout.
Qed.

(** Neither does [set]. *)
Lemma set_loop_quiet its opts prop parts rest i obj h o h' msg :
  throwErrors opts = false →
  DotDotty.set_loop its opts prop parts i rest obj h = (Exit o, h') →
  o ≠ Throw (Error msg).
Proof.
  intros Hthrow. destruct (isExpandable opts) eqn:Hexp.
  { intros Hloop.
    by rewrite (set_loop_expandable_exit _ _ _ _ _ _ _ _ _ _ Hexp Hloop). }
  revert i obj. induction rest as [|p rest IH]; intros i obj; [done|].
  destruct rest as [|q rest]; [done|].
  rewrite set_loop_cons. unfold mbind, M_bind.
  rewrite set_iteration_frozen, Hthrow by done.
  destruct (read_prop h obj _) as [e|cur] eqn:Hread.
  { intros [= <- _]. by rewrite (read_prop_error _ _ _ _ Hread). }
  destruct (is_undefined cur); [by intros [= <- _]|apply IH].
Qed.

Lemma set_quiet its opts h T prop v o h' msg :
  throwErrors opts = false →
  DotDotty.set its opts h T prop v = (o, h') →
  o ≠ Throw (Error msg).
Proof.
  intros Hthrow. destruct (isImmutable opts) eqn:Himm.
  { rewrite set_immutable by done. by intros [= <- _]. }
  rewrite set_mutable by done.
  destruct (DotDotty.set_loop _ _ _ _ _ _ _ h) as [[obj|o1] h1] eqn:Hloop.
  - unfold call. rewrite set_finish_run, Hthrow. cbv zeta.
    destruct (read_prop h1 obj _) as [e|cur] eqn:Hread.
    { intros [= <- _]. by rewrite (read_prop_error _ _ _ _ Hread). }
    destruct (is_undefined cur && negb (isExpandable opts));
      [by intros [= <- _]|].
    case_write e h2 Hw; [|by intros [= <- _]].
    intros [= <- _]. by rewrite (write_prop_error _ _ _ _ _ Hw).
  - intros [= <- _]. by eapply set_loop_quiet.
Qed.

(** ** The example of the documentation *)

(** On [{a: 1, b: 2}]: [dot["a"]] returns 1; [dot["c.cA"] = true] and then
    [dot["d.0.a"] = "test"] leave [{a: 1, b: 2, c: {cA: true},
    d: [{a: "test"}]}]. *)
Lemma documentation_example :
  DotDotty.get default_options sample_target 1%positive "a"
  = Return (VNumber 1) ∧
  ∃ h1 h2,
    DotDotty.set no_inexact_text default_options sample_target 1%positive
      "c.cA" (VBool true) = (Return (VBool true), h1) ∧
    DotDotty.set no_inexact_text default_options h1 1%positive
      "d.0.a" (VString "test") = (Return (VString "test"), h2) ∧
    h2 = {[ 1%positive :=
              Container Mapping
                {[ "a" := VNumber 1; "b" := VNumber 2;
                   "c" := VRef 2%positive; "d" := VRef 3%positive ]};
            2%positive := Container Mapping {[ "cA" := VBool true ]};
            3%positive := Container Sequence {[ "0" := VRef 4%positive ]};
            4%positive := Container Mapping {[ "a" := VString "test" ]} ]}.
Proof.
  split; [vm_compute; reflexivity|].
  eexists _, _. repeat split; vm_compute; reflexivity.
Qed.
